(** * WrapperDesign: the spec editor pane of insomnia-app

    A shallow embedding of
    [packages/insomnia-app/app/ui/components/wrapper-design.js].

    The component is a React class.  Its instance fields ([props], [state],
    [editor], [debounceTimeout]) become a record, the event loop it runs on
    (clock, pending timers, lint runs in flight) becomes a second record
    around it, and every call that leaves the component (the callbacks handed
    down by the parent, the editor widget, the lint engine, the modal) is
    appended to a trace.  Methods are written in a small state-and-exception
    monad so that they read like the JavaScript they come from. *)

From Stdlib Require Import ZArith String List Lia.
From Stdlib Require Import Floats.PrimFloat.
From stdpp Require Import base gmap strings list.

Local Open Scope Z_scope.
Local Open Scope string_scope.

(** ** JavaScript values and control *)

Module Js.

(** What [YAML.parse] can hand back, and what a record field can hold. *)
#[warnings="-register-all"]
Inductive val :=
| VNull
| VBool (b : bool)
| VNum (f : float)
| VStr (s : string)
| VArr (l : list val)
| VObj (o : gmap string val).

(** ToBoolean: [null], [false], [0], [-0], [NaN] and [''] are falsy. *)
Definition truthy (v : val) : bool :=
  match v with
  | VNull => false
  | VBool b => b
  | VNum f => negb (PrimFloat.is_zero f || PrimFloat.is_nan f)
  | VStr s => negb (String.eqb s "")
  | VArr _ | VObj _ => true
  end.

(** [a || b] *)
Definition or (a b : val) : val := if truthy a then a else b.

(** [{}] *)
Definition empty_object : val := VObj ∅.

Inductive Error :=
| TypeError (msg : string)
| LibraryError (origin msg : string).

(** How an expression or a call completes. *)
Inductive Outcome (A : Type) :=
| Return (a : A)
| Throw (e : Error).
Arguments Return {A} a.
Arguments Throw {A} e.

(** [try { body } catch (err) { handler }] *)
Definition try_catch {A} (body : Outcome A) (handler : Error -> Outcome A) : Outcome A :=
  match body with
  | Return a => Return a
  | Throw e => handler e
  end.

End Js.
Import Js.

(** ** Data model *)

Record Position := { line : Z; character : Z }.

(** [end] is a keyword here, hence [end_]. *)
Record Range := { start : Position; end_ : Position }.

(** One result of [spectral.run]. *)
Module Violation.
Record t := { severity : Z; code : string; message : string; range : Range }.
End Violation.

(** One element of [state.lintMessages], as built in [_reLint]. *)
Module Notice.
Record t := { type : string; message : string; line : Z; _range : Range }.
End Notice.

(** Modelled from the spec: the [ApiSpec] type is declared in
    [models/api-spec], which is outside the component file.  The spec names a
    unique identifier, the raw textual contents and a parent workspace
    reference; [others] holds every further own property of the record. *)
Record ApiSpec := {
  _id : string;
  parentId : string;
  contents : string;
  others : gmap string val;
}.

(** [{ ...activeApiSpec, contents: v }] *)
Definition spread_with_contents (activeApiSpec : ApiSpec) (v : string) : ApiSpec :=
  {| _id := _id activeApiSpec;
     parentId := parentId activeApiSpec;
     contents := v;
     others := others activeApiSpec |}.

Record Workspace := { name : string }.

Record Settings := {
  editorFontSize : Z;
  editorIndentSize : Z;
  lineWrapping : bool;
  editorKeyMap : string;
}.

(** A function handed down by the parent, known by its identity only. *)
Definition Handler := nat.
Bind Scope nat_scope with Handler.

(** The mounted [CodeEditor] instance a ref points at. *)
Definition Editor := nat.
Bind Scope nat_scope with Editor.

(** The part of [WrapperProps] the component reads. *)
Record WrapperProps := {
  activeApiSpec : ApiSpec;
  activeWorkspace : Workspace;
  settings : Settings;
  handleSetActiveActivity : Handler;
}.

Record Props := {
  gitSyncDropdown : string;
  wrapperProps : WrapperProps;
  handleUpdateApiSpec : Handler;
  handleSetDebugActivity : Handler;
}.

Record State := {
  previewActive : bool;
  lintMessages : list Notice.t;
}.

(** The instance: [this]. *)
Record Component := {
  props : Props;
  state : State;
  editor : option Editor;
  debounceTimeout : option nat;
}.

(** ** The world around the instance *)

(** Calls that leave the component, in the order they happen. *)
Inductive Effect :=
| UpdateApiSpec (f : Handler) (s : ApiSpec)
| SetDebugActivity (f : Handler) (s : ApiSpec)
| SetActiveActivity (f : Handler) (activity : string)
| ShowModal (modal : string) (apiSpec : ApiSpec)
| SetSelection (e : Editor) (chStart chEnd lineStart lineEnd : Z)
| SpectralRun (text : string)
| UnhandledRejection (e : Error)
| UncaughtError (e : Error).

(** The closure passed to [setTimeout] in [_handleOnChange], with the three
    variables it closes over. *)
Inductive Task :=
| CommitTask (handleUpdateApiSpec : Handler) (activeApiSpec : ApiSpec) (v : string).

Record Timer := { timer_id : nat; due : nat; task : Task }.

Record World := {
  this : Component;
  mounted : bool;
  now : nat;
  timers : list Timer;
  next_timer : nat;
  lint_in_flight : nat;
  trace : list Effect;
}.

(** ** The monad of methods: state that survives a throw *)

Definition M (A : Type) : Type := World -> Outcome A * World.

Definition ret {A} (a : A) : M A := fun w => (Return a, w).

Definition bind {A B} (m : M A) (k : A -> M B) : M B := fun w =>
  match m w with
  | (Return a, w') => k a w'
  | (Throw e, w') => (Throw e, w')
  end.

Definition throw {A} (e : Error) : M A := fun w => (Throw e, w).

Declare Scope js_scope.
Delimit Scope js_scope with js.
Notation "'do' x <- m ; k" := (bind m (fun x => k))
  (at level 10, x name, m at level 100, k at level 200,
   format "'[v' 'do'  x  <-  m ; '/' k ']'") : js_scope.
Notation "m ;; k" := (bind m (fun _ => k))
  (at level 100, k at level 200, right associativity) : js_scope.
Local Open Scope js_scope.

(** The world a method leaves behind, whether it returned or threw. *)
Definition exec {A} (m : M A) (w : World) : World := snd (m w).

Definition get_this : M Component := fun w => (Return (this w), w).

Definition get_world : M World := fun w => (Return w, w).

Definition modify_this (f : Component -> Component) : M unit := fun w =>
  (Return tt,
   {| this := f (this w); mounted := mounted w; now := now w; timers := timers w;
      next_timer := next_timer w; lint_in_flight := lint_in_flight w;
      trace := trace w |}).

Definition emit (e : Effect) : M unit := fun w =>
  (Return tt,
   {| this := this w; mounted := mounted w; now := now w; timers := timers w;
      next_timer := next_timer w; lint_in_flight := lint_in_flight w;
      trace := trace w ++ [e] |}).

Definition set_timers (ts : list Timer) : M unit := fun w =>
  (Return tt,
   {| this := this w; mounted := mounted w; now := now w; timers := ts;
      next_timer := next_timer w; lint_in_flight := lint_in_flight w;
      trace := trace w |}).

Definition set_now (t : nat) : M unit := fun w =>
  (Return tt,
   {| this := this w; mounted := mounted w; now := t; timers := timers w;
      next_timer := next_timer w; lint_in_flight := lint_in_flight w;
      trace := trace w |}).

(** React's own record of whether the instance is on screen. *)
Definition set_mounted (b : bool) : M unit := fun w =>
  (Return tt,
   {| this := this w; mounted := b; now := now w; timers := timers w;
      next_timer := next_timer w; lint_in_flight := lint_in_flight w;
      trace := trace w |}).

Definition set_lint_in_flight (n : nat) : M unit := fun w =>
  (Return tt,
   {| this := this w; mounted := mounted w; now := now w; timers := timers w;
      next_timer := next_timer w; lint_in_flight := n;
      trace := trace w |}).

(** [clearTimeout(id)]: an id that is [undefined], or that names no pending
    timer, clears nothing. *)
Definition clearTimeout (i : option nat) : M unit :=
  match i with
  | None => ret tt
  | Some n =>
      do w <- get_world;
      set_timers (filter (fun t => timer_id t <> n) (timers w))
  end.

(** [setTimeout(f, delay)]: queues [f] and returns a fresh id. *)
Definition setTimeout (f : Task) (delay : nat) : M nat := fun w =>
  (Return (next_timer w),
   {| this := this w; mounted := mounted w; now := now w;
      timers := timers w ++ [{| timer_id := next_timer w; due := now w + delay; task := f |}];
      next_timer := S (next_timer w); lint_in_flight := lint_in_flight w;
      trace := trace w |}).

(** ** The event loop's timers *)

(** What the timer callback of [_handleOnChange] does when it runs:
    [await handleUpdateApiSpec({ ...activeApiSpec, contents: v })]. *)
Definition run_task (f : Task) : M unit :=
  match f with
  | CommitTask handleUpdateApiSpec activeApiSpec v =>
      emit (UpdateApiSpec handleUpdateApiSpec (spread_with_contents activeApiSpec v))
  end.

(** The call of [handleUpdateApiSpec] a task makes: who is called, with what. *)
Definition commit_of (f : Task) : Handler * ApiSpec :=
  match f with
  | CommitTask handleUpdateApiSpec activeApiSpec v =>
      (handleUpdateApiSpec, spread_with_contents activeApiSpec v)
  end.

(** The pending timer that is due first; among equals, the one queued first. *)
Fixpoint earliest (ts : list Timer) : option Timer :=
  match ts with
  | [] => None
  | t :: ts' =>
      match earliest ts' with
      | Some u => if (due u <? due t)%nat then Some u else Some t
      | None => Some t
      end
  end.

(** One timer goes off: it leaves the queue, the clock is at least its due
    time, its callback runs. *)
Definition fire (t : Timer) : M unit :=
  do w <- get_world;
  set_timers (filter (fun u => timer_id u <> timer_id t) (timers w)) ;;
  set_now (Nat.max (now w) (due t)) ;;
  run_task (task t).

(** Run, in due order, every timer due by [deadline]. *)
Fixpoint run_timers (fuel : nat) (deadline : nat) : M unit :=
  match fuel with
  | O => ret tt
  | S fuel' =>
      do w <- get_world;
      match earliest (timers w) with
      | Some t =>
          if (due t <=? deadline)%nat
          then fire t ;; run_timers fuel' deadline
          else ret tt
      | None => ret tt
      end
  end.

(** [dt] time units pass.  No callback of this component queues a timer, so
    one round per pending timer is enough. *)
Definition advance (dt : nat) : M unit :=
  do w <- get_world;
  run_timers (length (timers w)) (now w + dt) ;;
  set_now (now w + dt).

(** ** The preview *)

(** What [render] puts on screen, as far as it depends on props and state. *)
Record View := {
  crumbs : list string;
  previewLabel : string;
  previewHidden : bool;
  swaggerSpec : val;
  defaultValue : string;
  uniquenessKey : string;
  notices : option (list Notice.t);
}.

Section Preview.

(** [YAML.parse], from the [yaml] package: a value, or a throw. *)
Variable YAML_parse : string -> Outcome val.

Definition render (c : Component) : Outcome View :=
  let apiSpec := activeApiSpec (wrapperProps (props c)) in
  let activeWorkspace := activeWorkspace (wrapperProps (props c)) in
  let lintMessages := lintMessages (state c) in
  let previewActive := previewActive (state c) in
  let parsed :=
    try_catch
      (match YAML_parse (contents apiSpec) with
       | Return parsed => Return (Js.or parsed empty_object)
       | Throw err => Throw err
       end)
      (fun err => Return empty_object) in
  match parsed with
  | Throw err => Throw err
  | Return swaggerSpec =>
      Return
        {| crumbs := ["Documents"; name activeWorkspace];
           previewLabel := (if previewActive then "Preview: On" else "Preview: Off");
           previewHidden := negb previewActive;
           swaggerSpec := swaggerSpec;
           defaultValue := contents apiSpec;
           uniquenessKey := _id apiSpec;
           notices := match lintMessages with
                      | [] => None
                      | _ => Some lintMessages
                      end |}
  end.

End Preview.

(** ** The class *)

Section WrapperDesign.

(** [ACTIVITY_HOME] is imported from [./activity-bar/activity-bar]. *)
Variable ACTIVITY_HOME : string.

(** [state = { previewActive: true, lintMessages: [] }] *)
Definition initial_state : State :=
  {| previewActive := true; lintMessages := [] |}.

Definition _setEditorRef (n : option Editor) : M unit :=
  modify_this (fun c =>
    {| props := props c; state := state c; editor := n;
       debounceTimeout := debounceTimeout c |}).

Definition _handleGenerateConfig : M unit :=
  do c <- get_this;
  let apiSpec := activeApiSpec (wrapperProps (props c)) in
  emit (ShowModal "GenerateConfigModal" apiSpec).

Definition _handleDebugSpec : M unit :=
  do c <- get_this;
  let apiSpec := activeApiSpec (wrapperProps (props c)) in
  emit (SetDebugActivity (handleSetDebugActivity (props c)) apiSpec).

(** The part of [_reLint] before the [await]: read the contents and hand
    them to [spectral.run].  The promise it gets back is in flight. *)
Definition _reLint : M unit :=
  do c <- get_this;
  let apiSpec := activeApiSpec (wrapperProps (props c)) in
  emit (SpectralRun (contents apiSpec)) ;;
  do w <- get_world;
  set_lint_in_flight (S (lint_in_flight w)).

Definition componentDidMount : M unit := _reLint.

Definition componentDidUpdate (prevProps : Props) : M unit :=
  do c <- get_this;
  let apiSpec := activeApiSpec (wrapperProps (props c)) in
  (* Re-lint if content changed *)
  if negb (String.eqb (contents apiSpec)
                      (contents (activeApiSpec (wrapperProps prevProps))))
  then _reLint
  else ret tt.

(** [this.setState(...)]: on a mounted instance React stores the new state,
    renders again and calls [componentDidUpdate] with the props, which did
    not change.  On an instance that is not mounted React drops the update:
    nothing is stored and nothing is rendered. *)
Definition setState (f : State -> State) : M unit :=
  do w <- get_world;
  if mounted w
  then
    do c <- get_this;
    modify_this (fun c =>
      {| props := props c; state := f (state c); editor := editor c;
         debounceTimeout := debounceTimeout c |}) ;;
    componentDidUpdate (props c)
  else ret tt.

Definition _handleTogglePreview : M unit :=
  do c <- get_this;
  setState (fun s =>
    {| previewActive := negb (previewActive (state c));
       lintMessages := lintMessages s |}).

Definition _handleOnChange (v : string) : M unit :=
  do c <- get_this;
  let apiSpec := activeApiSpec (wrapperProps (props c)) in
  let updateApiSpec := handleUpdateApiSpec (props c) in
  (* Debounce the update because these specs can get pretty large *)
  clearTimeout (debounceTimeout c) ;;
  do t <- setTimeout (CommitTask updateApiSpec apiSpec v) 500;
  modify_this (fun c =>
    {| props := props c; state := state c; editor := editor c;
       debounceTimeout := Some t |}).

Definition _handleSetSelection (chStart chEnd lineStart lineEnd : Z) : M unit :=
  do c <- get_this;
  match editor c with
  | None => ret tt
  | Some e => emit (SetSelection e chStart chEnd lineStart lineEnd)
  end.

(** The element [_reLint] builds for one result. *)
Definition to_notice (r : Violation.t) : Notice.t :=
  {| Notice.type := (if (Violation.severity r =? 0)%Z then "error" else "warning");
     Notice.message := Violation.code r ++ " " ++ Violation.message r;
     Notice.line := line (start (Violation.range r));
     (* Attach range that will be returned to our click handler *)
     Notice._range := Violation.range r |}.

(** The part of [_reLint] after the [await], run when the promise of
    [spectral.run] settles.  A rejection is rethrown at the [await]. *)
Definition _reLint_resume (settled : Outcome (list Violation.t)) : M unit :=
  match settled with
  | Throw e => throw e
  | Return results =>
      setState (fun s =>
        {| previewActive := previewActive s;
           lintMessages := map to_notice results |})
  end.

Definition _handleBreadcrumb (index : Z) : M unit :=
  do c <- get_this;
  emit (SetActiveActivity (handleSetActiveActivity (wrapperProps (props c)))
                          ACTIVITY_HOME).

(** Every name the class body declares: the three instance fields, the
    static [lintOptions], and the methods. *)
Definition class_body_names : list string :=
  [ "editor"; "debounceTimeout"; "state"; "lintOptions";
    "_setEditorRef"; "_handleGenerateConfig"; "_handleDebugSpec";
    "_handleTogglePreview"; "_handleOnChange"; "_handleSetSelection";
    "_handleLintClick"; "_reLint"; "_handleBreadcrumb";
    "componentDidMount"; "componentDidUpdate"; "render" ].

(** What [React.PureComponent] puts on an instance. *)
Definition inherited_names : list string :=
  [ "props"; "context"; "refs"; "updater"; "setState"; "forceUpdate";
    "isReactComponent"; "isPureReactComponent" ].

(** Whether an instance has a member of that name. *)
Definition declares (name : string) : bool :=
  existsb (String.eqb name) (class_body_names ++ inherited_names).

(** What [this.<name>(a, b, c, d)] runs for numbers [a] to [d]: the methods
    of the class body whose parameters are numbers, or that have none
    (surplus arguments are dropped).  The other methods take an editor, a
    string, a notice or props, and the file never calls them by name. *)
Definition numeric_methods : list (string * (Z -> Z -> Z -> Z -> M unit)) :=
  [ ("_handleGenerateConfig", fun _ _ _ _ => _handleGenerateConfig);
    ("_handleDebugSpec", fun _ _ _ _ => _handleDebugSpec);
    ("_handleTogglePreview", fun _ _ _ _ => _handleTogglePreview);
    ("_handleSetSelection", _handleSetSelection);
    ("_reLint", fun _ _ _ _ => _reLint);
    ("_handleBreadcrumb", fun index _ _ _ => _handleBreadcrumb index);
    ("componentDidMount", fun _ _ _ _ => componentDidMount) ].

(** The lifecycle hooks without parameters that the class body defines. *)
Definition lifecycle_hooks : list (string * M unit) :=
  [ ("componentDidMount", componentDidMount) ].

Fixpoint assoc {A} (key : string) (table : list (string * A)) : option A :=
  match table with
  | [] => None
  | (k, a) :: table' => if String.eqb k key then Some a else assoc key table'
  end.

(** [this.<method>(a, b, c, d)]: a name that is not bound reads as
    [undefined], and calling [undefined] is a TypeError. *)
Definition call_this (method : string) (a b c d : Z) : M unit :=
  match assoc method numeric_methods with
  | Some f => f a b c d
  | None => throw (TypeError ("this." ++ method ++ " is not a function"))
  end.

Definition _handleLintClick (notice : Notice.t) : M unit :=
  let start_ := start (Notice._range notice) in
  let end__ := end_ (Notice._range notice) in
  call_this "setSelection"
    (character start_) (character end__) (line start_) (line end__).

(** React runs a lifecycle hook when the instance has one. *)
Definition run_hook (hook : string) : M unit :=
  match assoc hook lifecycle_hooks with
  | Some f => f
  | None => ret tt
  end.

(** *** What React and the page do with the instance *)

(** The instance as the constructor leaves it. *)
Definition constructed (p : Props) : World :=
  {| this := {| props := p; state := initial_state; editor := None;
                debounceTimeout := None |};
     mounted := false;
     now := 0; timers := []; next_timer := 1; lint_in_flight := 0;
     trace := [] |}.

(** First display: the ref of the [CodeEditor] is attached, the instance
    counts as mounted, then [componentDidMount] runs. *)
Definition mount (p : Props) (e : Editor) : World :=
  exec (_setEditorRef (Some e) ;; set_mounted true ;; run_hook "componentDidMount")
       (constructed p).

(** The parent passes new props: React stores them, renders, and calls
    [componentDidUpdate] with the previous ones. *)
Definition rerender (p : Props) : M unit :=
  do c <- get_this;
  modify_this (fun c =>
    {| props := p; state := state c; editor := editor c;
       debounceTimeout := debounceTimeout c |}) ;;
  componentDidUpdate (props c).

(** Teardown: React runs [componentWillUnmount] when the class has one,
    detaches the refs, and the instance no longer counts as mounted.  Timers
    are the page's, not React's: teardown does not touch them. *)
Definition unmount : M unit :=
  run_hook "componentWillUnmount" ;;
  _setEditorRef None ;;
  set_mounted false.

(** An event handler run by the page: what it throws reaches the host. *)
Definition dispatch (m : M unit) (w : World) : World :=
  match m w with
  | (Return _, w') => w'
  | (Throw e, w') => exec (emit (UncaughtError e)) w'
  end.

(** The promise of one [spectral.run] in flight settles and [_reLint]
    resumes.  [componentDidMount] and [componentDidUpdate] dropped the
    promise of [_reLint], so nothing handles its rejection. *)
Definition settle_lint (settled : Outcome (list Violation.t)) (w : World) : World :=
  match lint_in_flight w with
  | O => w
  | S n =>
      match (set_lint_in_flight n ;; _reLint_resume settled) w with
      | (Return _, w') => w'
      | (Throw e, w') => exec (emit (UnhandledRejection e)) w'
      end
  end.

Inductive Event :=
| Tick (dt : nat)
| Edit (v : string)
| Rerender (p : Props)
| LintSettled (settled : Outcome (list Violation.t))
| EditorRef (n : option Editor)
| TogglePreview
| DebugSpec
| GenerateConfig
| BreadcrumbClick (index : Z)
| NoticeClick (notice : Notice.t)
| SidebarSelect (chStart chEnd lineStart lineEnd : Z)
| Unmount.

Definition step (ev : Event) (w : World) : World :=
  match ev with
  | Tick dt => exec (advance dt) w
  | Edit v => dispatch (_handleOnChange v) w
  | Rerender p => dispatch (rerender p) w
  | LintSettled settled => settle_lint settled w
  | EditorRef n => dispatch (_setEditorRef n) w
  | TogglePreview => dispatch _handleTogglePreview w
  | DebugSpec => dispatch _handleDebugSpec w
  | GenerateConfig => dispatch _handleGenerateConfig w
  | BreadcrumbClick index => dispatch (_handleBreadcrumb index) w
  | NoticeClick notice => dispatch (_handleLintClick notice) w
  | SidebarSelect a b c d => dispatch (_handleSetSelection a b c d) w
  | Unmount => dispatch unmount w
  end.

Definition run (evs : list Event) (w : World) : World :=
  fold_left (fun w ev => step ev w) evs w.

Inductive reachable : World -> Prop :=
| reachable_mount p e : reachable (mount p e)
| reachable_step ev w : reachable w -> reachable (step ev w).

(** *** Reading the trace *)

(** The calls of [handleUpdateApiSpec], oldest first. *)
Definition commits (w : World) : list (Handler * ApiSpec) :=
  omap (fun e => match e with UpdateApiSpec f s => Some (f, s) | _ => None end)
       (trace w).

(** The texts handed to [spectral.run], oldest first. *)
Definition lint_runs (w : World) : list string :=
  omap (fun e => match e with SpectralRun text => Some text | _ => None end)
       (trace w).

(** *** Bursts of edits *)

Definition is_edit (ev : Event) : bool :=
  match ev with Edit _ => true | _ => false end.

Definition duration (ev : Event) : nat :=
  match ev with Tick dt => dt | _ => 0 end.

(** Time that passes over a run of events. *)
Definition elapsed (evs : list Event) : nat :=
  fold_right (fun ev n => duration ev + n)%nat 0%nat evs.

(** Events with no edit among them. *)
Definition quiet (evs : list Event) : Prop :=
  Forall (fun ev => is_edit ev = false) evs.

(** Each element is an edit and what follows it up to the next edit. *)
Fixpoint run_edits (edits : list (string * list Event)) (w : World) : World :=
  match edits with
  | [] => w
  | (v, after) :: edits' => run_edits edits' (run after (step (Edit v) w))
  end.

(** The next edit comes less than 500 time units after this one. *)
Definition superseded (edit : string * list Event) : Prop :=
  quiet (snd edit) /\ (elapsed (snd edit) < 500)%nat.

(** Every pending timer is the one [this.debounceTimeout] names. *)
Definition owns_timers (w : World) : Prop :=
  Forall (fun t => debounceTimeout (this w) = Some (timer_id t)) (timers w).

(** Exactly the commit [f] is pending, due in [k] time units. *)
Definition pending (w : World) (f : Task) (k : nat) : Prop :=
  exists t, timers w = [t] /\ task t = f /\ due t = (now w + k)%nat /\
            debounceTimeout (this w) = Some (timer_id t).

(** The timer [_handleOnChange v] queues in [w]. *)
Definition scheduled (w : World) (v : string) : Timer :=
  {| timer_id := next_timer w;
     due := now w + 500;
     task := CommitTask (handleUpdateApiSpec (props (this w)))
                        (activeApiSpec (wrapperProps (props (this w)))) v |}.

(** What an event that is neither an edit nor a tick leaves alone. *)
Definition same_schedule (w w' : World) : Prop :=
  timers w' = timers w /\ now w' = now w /\ next_timer w' = next_timer w /\
  debounceTimeout (this w') = debounceTimeout (this w) /\
  commits w' = commits w.

(** *** Further vocabulary for runs *)

(** The edit is left alone for at least 500 time units. *)
Definition left_alone (edit : string * list Event) : Prop :=
  quiet (snd edit) /\ (500 <= elapsed (snd edit))%nat.

Definition is_rerender (ev : Event) : bool :=
  match ev with Rerender _ => true | _ => false end.

(** Events during which the parent passes no new props. *)
Definition same_props (evs : list Event) : Prop :=
  Forall (fun ev => is_rerender ev = false) evs.

(** The props the parent passes once it has stored the record [s]. *)
Definition with_activeApiSpec (p : Props) (s : ApiSpec) : Props :=
  {| gitSyncDropdown := gitSyncDropdown p;
     wrapperProps :=
       {| activeApiSpec := s;
          activeWorkspace := activeWorkspace (wrapperProps p);
          settings := settings (wrapperProps p);
          handleSetActiveActivity := handleSetActiveActivity (wrapperProps p) |};
     handleUpdateApiSpec := handleUpdateApiSpec p;
     handleSetDebugActivity := handleSetDebugActivity p |}.

(** Promises of [spectral.run] settling one after the other. *)
Definition settle_all (settled : list (Outcome (list Violation.t))) (w : World) : World :=
  fold_left (fun w o => settle_lint o w) settled w.

(** The results of the promise that resolved last, if any did. *)
Fixpoint last_resolved (settled : list (Outcome (list Violation.t)))
  : option (list Violation.t) :=
  match settled with
  | [] => None
  | o :: settled' =>
      match last_resolved settled' with
      | Some results => Some results
      | None => match o with Return results => Some results | Throw _ => None end
      end
  end.

(** *** Sample data *)

Definition sample_spec : ApiSpec :=
  {| _id := "spc_1";
     parentId := "wrk_1";
     contents := "openapi: 3.0.0";
     others := {[ "fileName" := VStr "petstore.yaml" ]} |}.

Definition sample_props : Props :=
  {| gitSyncDropdown := "";
     wrapperProps :=
       {| activeApiSpec := sample_spec;
          activeWorkspace := {| name := "Petstore" |};
          settings := {| editorFontSize := 12; editorIndentSize := 2;
                         lineWrapping := true; editorKeyMap := "default" |};
          handleSetActiveActivity := 3%nat |};
     handleUpdateApiSpec := 1%nat;
     handleSetDebugActivity := 2%nat |}.

(** The sample record after a rename on disk: same contents, other file. *)
Definition renamed_props : Props :=
  {| gitSyncDropdown := "";
     wrapperProps :=
       {| activeApiSpec :=
            {| _id := "spc_1"; parentId := "wrk_1"; contents := "openapi: 3.0.0";
               others := {[ "fileName" := VStr "store.yaml" ]} |};
          activeWorkspace := {| name := "Petstore" |};
          settings := settings (wrapperProps sample_props);
          handleSetActiveActivity := 3%nat |};
     handleUpdateApiSpec := 1%nat;
     handleSetDebugActivity := 2%nat |}.

(** A parser that knows three documents and answers on them as the [yaml]
    package does; it stands in for [YAML.parse] where a concrete one is
    needed. *)
Definition yaml_sample (text : string) : Outcome val :=
  if String.eqb text "" then Return VNull
  else if String.eqb text "openapi: 3.0.0"
       then Return (VObj {[ "openapi" := VStr "3.0.0" ]})
  else if String.eqb text "false" then Return (VBool false)
  else Throw (LibraryError "yaml" "YAMLSyntaxError").

(** * Properties *)

(** ** Events that leave the timers alone *)

Ltac crush_frame :=
  repeat split; cbn;
  try reflexivity;
  unfold commits; cbn;
  rewrite ?omap_app; cbn; rewrite ?app_nil_r; reflexivity.

Lemma step_same_schedule (ev : Event) (w : World) :
  is_edit ev = false -> (forall dt, ev <> Tick dt) ->
  same_schedule w (step ev w).
Proof.
  intros Hedit Htick. unfold same_schedule.
  destruct ev as [dt| | p |settled| | | | | |notice| |]; try discriminate Hedit.
  - exfalso; apply (Htick dt); reflexivity.
  - cbn. unfold dispatch, rerender, componentDidUpdate, bind; cbn.
    destruct (negb _); crush_frame.
  - cbn. unfold settle_lint. destruct (lint_in_flight w) as [|n]; [crush_frame|].
    destruct settled as [results|e]; cbn.
    + unfold setState, bind; cbn. destruct (mounted w); cbn;
        rewrite ?String.eqb_refl; cbn; crush_frame.
    + crush_frame.
  - crush_frame.
  - cbn. unfold dispatch, _handleTogglePreview, setState, componentDidUpdate, bind; cbn.
    destruct (mounted w); cbn; rewrite ?String.eqb_refl; cbn; crush_frame.
  - crush_frame.
  - crush_frame.
  - crush_frame.
  - crush_frame.
  - cbn. unfold dispatch, _handleSetSelection, bind; cbn.
    destruct (editor (this w)); crush_frame.
  - crush_frame.
Qed.

(** ** Timers *)

Lemma run_timers_returns (fuel deadline : nat) (w : World) :
  run_timers fuel deadline w = (Return tt, exec (run_timers fuel deadline) w).
Proof.
  revert w; induction fuel as [|fuel IH]; intros w; [reflexivity|].
  unfold exec; cbn [run_timers]. unfold bind, get_world; cbn.
  destruct (earliest (timers w)) as [t|]; [|reflexivity].
  destruct (due t <=? deadline)%nat; [|reflexivity].
  destruct t as [i d [h s v]]; cbn. apply IH.
Qed.

Lemma fire_spec (t : Timer) (w : World) :
  fire t w = (Return tt, exec (fire t) w) /\
  timers (exec (fire t) w) = filter (fun u => timer_id u <> timer_id t) (timers w) /\
  now (exec (fire t) w) = Nat.max (now w) (due t) /\
  this (exec (fire t) w) = this w /\
  commits (exec (fire t) w) = (commits w ++ [commit_of (task t)])%list.
Proof.
  destruct t as [i d [h s v]]; cbn. repeat split.
  unfold commits; cbn. rewrite omap_app. reflexivity.
Qed.

Lemma advance_exec (dt : nat) (w : World) :
  exec (advance dt) w =
  exec (set_now (now w + dt))
       (exec (run_timers (length (timers w)) (now w + dt)) w).
Proof.
  unfold advance, exec, bind; cbn.
  rewrite run_timers_returns; reflexivity.
Qed.

Lemma run_timers_single (deadline : nat) (w : World) (t : Timer) :
  timers w = [t] ->
  exec (run_timers 1 deadline) w =
  if (due t <=? deadline)%nat then exec (fire t) w else w.
Proof.
  intros Hts. unfold exec; cbn [run_timers]. unfold bind at 1, get_world.
  cbv beta iota. rewrite Hts; cbn [earliest].
  destruct (due t <=? deadline)%nat; [|reflexivity].
  unfold bind. destruct (fire_spec t w) as (Hret & _). rewrite Hret. reflexivity.
Qed.

Lemma filter_owned (n : nat) (ts : list Timer) :
  Forall (fun t => Some n = Some (timer_id t)) ts ->
  filter (fun t => timer_id t <> n) ts = [].
Proof.
  induction 1 as [|t ts Ht _ IH]; [reflexivity|].
  rewrite filter_cons. destruct (decide (timer_id t <> n)) as [Hne|_].
  - congruence.
  - exact IH.
Qed.

Lemma run_timers_owns (fuel deadline : nat) (w : World) :
  owns_timers w -> owns_timers (exec (run_timers fuel deadline) w).
Proof.
  revert w; induction fuel as [|fuel IH]; intros w Hw; [exact Hw|].
  unfold exec; cbn [run_timers]. unfold bind at 1, get_world; cbn.
  destruct (earliest (timers w)) as [t|]; [|exact Hw].
  destruct (due t <=? deadline)%nat; [|exact Hw].
  destruct (fire_spec t w) as (Hret & Hts & _ & Hthis & _).
  unfold bind. rewrite Hret. apply IH.
  unfold owns_timers in *. rewrite Hts, Hthis.
  apply Forall_forall. intros u Hu.
  apply list_elem_of_filter in Hu as [_ Hu].
  rewrite Forall_forall in Hw. exact (Hw u Hu).
Qed.

(** ** The debounce *)

(** An edit clears the timer the instance owns and queues its own. *)
Lemma edit_schedules (w : World) (v : string) :
  owns_timers w ->
  timers (step (Edit v) w) = [scheduled w v] /\
  debounceTimeout (this (step (Edit v) w)) = Some (next_timer w) /\
  now (step (Edit v) w) = now w /\
  props (this (step (Edit v) w)) = props (this w) /\
  commits (step (Edit v) w) = commits w.
Proof.
  intros Hown. unfold owns_timers in Hown.
  cbn. unfold dispatch, _handleOnChange, clearTimeout, bind, get_this; cbn.
  destruct (debounceTimeout (this w)) as [n|] eqn:Hd; cbn.
  - rewrite (filter_owned n (timers w) Hown). repeat split.
  - destruct (timers w) as [|t ts]; [repeat split|].
    inversion Hown; discriminate.
Qed.

Lemma edit_pending (w : World) (v : string) :
  owns_timers w -> pending (step (Edit v) w) (task (scheduled w v)) 500.
Proof.
  intros Hown. destruct (edit_schedules w v Hown) as (Hts & Hd & Hnow & _).
  exists (scheduled w v). rewrite Hts, Hd, Hnow. repeat split.
Qed.

Lemma pending_owns (w : World) (f : Task) (k : nat) :
  pending w f k -> owns_timers w.
Proof.
  intros (t & Hts & _ & _ & Hd). unfold owns_timers. rewrite Hts, Hd.
  repeat constructor.
Qed.

(** Every step keeps the timers the instance's own. *)
Lemma step_owns (ev : Event) (w : World) :
  owns_timers w -> owns_timers (step ev w).
Proof.
  intros Hown.
  destruct (is_edit ev) eqn:Hedit.
  - destruct ev; try discriminate Hedit.
    eapply pending_owns, edit_pending, Hown.
  - destruct ev as [dt| | | | | | | | | | |] eqn:Hev;
      try (rewrite <- Hev;
           destruct (step_same_schedule ev w) as (Hts & _ & _ & Hd & _);
           [subst ev; reflexivity | subst ev; discriminate |];
           unfold owns_timers in *; rewrite Hts, Hd; exact Hown).
    + cbn [step]. rewrite advance_exec.
      exact (run_timers_owns (length (timers w)) (now w + dt) w Hown).
    + discriminate Hedit.
Qed.

Lemma mount_owns (p : Props) (e : Editor) : owns_timers (mount p e).
Proof. constructor. Qed.

Lemma reachable_owns (w : World) : reachable w -> owns_timers w.
Proof.
  induction 1 as [p e|ev w _ IH]; [apply mount_owns | apply step_owns, IH].
Qed.

(** Before it is due, the pending commit sits through a tick. *)
Lemma tick_waits (w : World) (f : Task) (k dt : nat) :
  pending w f k -> (dt < k)%nat ->
  pending (step (Tick dt) w) f (k - dt) /\
  commits (step (Tick dt) w) = commits w.
Proof.
  intros (t & Hts & Hf & Hdue & Hd) Hlt.
  cbn [step]. rewrite advance_exec, Hts. cbn [length].
  rewrite (run_timers_single _ w t Hts).
  replace (due t <=? now w + dt)%nat with false
    by (symmetry; apply Nat.leb_gt; lia).
  split; [|reflexivity].
  exists t. cbn. repeat split; try assumption. lia.
Qed.

(** Once it is due, a tick runs the pending commit, once. *)
Lemma tick_fires (w : World) (f : Task) (k dt : nat) :
  pending w f k -> (k <= dt)%nat ->
  timers (step (Tick dt) w) = [] /\
  commits (step (Tick dt) w) = (commits w ++ [commit_of f])%list.
Proof.
  intros (t & Hts & Hf & Hdue & Hd) Hle.
  cbn [step]. rewrite advance_exec, Hts. cbn [length].
  rewrite (run_timers_single _ w t Hts).
  replace (due t <=? now w + dt)%nat with true
    by (symmetry; apply Nat.leb_le; lia).
  destruct (fire_spec t w) as (_ & Hfts & _ & _ & Hfc).
  split.
  - change (timers (exec (fire t) w) = []). rewrite Hfts, Hts, filter_cons.
    destruct (decide (timer_id t <> timer_id t)); [congruence|reflexivity].
  - change (commits (exec (fire t) w) = (commits w ++ [commit_of f])%list).
    rewrite Hfc, Hf. reflexivity.
Qed.

(** With nothing pending, a tick does nothing but move the clock. *)
Lemma tick_idle (w : World) (dt : nat) :
  timers w = [] ->
  timers (step (Tick dt) w) = [] /\ commits (step (Tick dt) w) = commits w.
Proof.
  intros Hts. cbn [step]. rewrite advance_exec, Hts. cbn [length].
  split; [exact Hts|reflexivity].
Qed.

Lemma run_cons (ev : Event) (evs : list Event) (w : World) :
  run (ev :: evs) w = run evs (step ev w).
Proof. reflexivity. Qed.

Lemma elapsed_cons (ev : Event) (evs : list Event) :
  elapsed (ev :: evs) = (duration ev + elapsed evs)%nat.
Proof. reflexivity. Qed.

Lemma tick_or_not (ev : Event) :
  (exists dt, ev = Tick dt) \/ (forall dt, ev <> Tick dt).
Proof. destruct ev; [left; eauto | right; discriminate ..]. Qed.

(** Nothing but an edit or a due tick touches the pending commit. *)
Lemma quiet_step_waits (w : World) (f : Task) (k : nat) (ev : Event) :
  pending w f k -> is_edit ev = false ->
  (forall dt, ev = Tick dt -> (dt < k)%nat) ->
  pending (step ev w) f (k - duration ev) /\ commits (step ev w) = commits w.
Proof.
  intros Hp Hedit Htick.
  destruct (tick_or_not ev) as [[dt ->]|Hno].
  - apply tick_waits; [exact Hp | apply Htick; reflexivity].
  - destruct (step_same_schedule ev w Hedit Hno) as (Hts & Hnow & _ & Hd & Hc).
    split; [|exact Hc].
    destruct Hp as (t & Hpts & Hf & Hdue & Hpd).
    exists t. rewrite Hts, Hnow, Hd.
    replace (k - duration ev)%nat with k
      by (destruct ev; cbn; try lia; exfalso; eapply Hno; eauto).
    repeat split; assumption.
Qed.

Lemma quiet_step_idle (w : World) (ev : Event) :
  timers w = [] -> is_edit ev = false ->
  timers (step ev w) = [] /\ commits (step ev w) = commits w.
Proof.
  intros Hts Hedit.
  destruct (tick_or_not ev) as [[dt ->]|Hno].
  - apply tick_idle, Hts.
  - destruct (step_same_schedule ev w Hedit Hno) as (Hts' & _ & _ & _ & Hc).
    rewrite Hts', Hc. split; [exact Hts|reflexivity].
Qed.

Lemma quiet_run_idle (evs : list Event) (w : World) :
  timers w = [] -> quiet evs ->
  timers (run evs w) = [] /\ commits (run evs w) = commits w.
Proof.
  revert w; induction evs as [|ev evs IH]; intros w Hts Hq; [split; [exact Hts|reflexivity]|].
  inversion Hq as [|? ? Hev Hevs]; subst.
  destruct (quiet_step_idle w ev Hts Hev) as [Hts' Hc'].
  destruct (IH (step ev w) Hts' Hevs) as [Hts'' Hc''].
  rewrite run_cons, Hts'', Hc'', Hc'. split; reflexivity.
Qed.

(** A stretch without edits that lasts less than the time left keeps the
    commit pending. *)
Lemma quiet_run_waits (evs : list Event) (w : World) (f : Task) (k : nat) :
  pending w f k -> quiet evs -> (elapsed evs < k)%nat ->
  pending (run evs w) f (k - elapsed evs) /\ commits (run evs w) = commits w.
Proof.
  revert w k; induction evs as [|ev evs IH]; intros w k Hp Hq Hlt.
  - cbn. rewrite Nat.sub_0_r. split; [exact Hp|reflexivity].
  - inversion Hq as [|? ? Hev Hevs]; subst. rewrite elapsed_cons in *.
    destruct (quiet_step_waits w f k ev Hp Hev) as [Hp' Hc'].
    { intros dt ->. cbn [duration] in Hlt. lia. }
    destruct (IH (step ev w) (k - duration ev)%nat Hp' Hevs) as [Hp'' Hc'']; [lia|].
    rewrite run_cons, Hc'', Hc'. split; [|reflexivity].
    replace (k - (duration ev + elapsed evs))%nat
      with (k - duration ev - elapsed evs)%nat by lia.
    exact Hp''.
Qed.

(** A stretch without edits that lasts at least the time left runs the
    commit, once. *)
Lemma quiet_run_fires (evs : list Event) (w : World) (f : Task) (k : nat) :
  pending w f k -> quiet evs -> (0 < k <= elapsed evs)%nat ->
  timers (run evs w) = [] /\
  commits (run evs w) = (commits w ++ [commit_of f])%list.
Proof.
  revert w k; induction evs as [|ev evs IH]; intros w k Hp Hq Hle.
  - cbn in Hle. lia.
  - inversion Hq as [|? ? Hev Hevs]; subst. rewrite elapsed_cons in Hle.
    assert ((exists dt, ev = Tick dt /\ (k <= dt)%nat) \/
            (forall dt, ev = Tick dt -> (dt < k)%nat)) as [(dt & -> & Hdt)|Hno].
    { destruct ev as [dt| | | | | | | | | | |]; try (right; discriminate).
      destruct (le_lt_dec k dt); [left; eauto|].
      right. intros dt' [= <-]. assumption. }
    + destruct (tick_fires w f k dt Hp Hdt) as [Hts' Hc'].
      destruct (quiet_run_idle evs _ Hts' Hevs) as [Hts'' Hc''].
      rewrite run_cons, Hts'', Hc'', Hc'. split; reflexivity.
    + destruct (quiet_step_waits w f k ev Hp Hev Hno) as [Hp' Hc'].
      assert (duration ev < k)%nat as Hd
        by (destruct ev; cbn; try lia; apply Hno; reflexivity).
      destruct (IH (step ev w) (k - duration ev)%nat Hp' Hevs) as [Hts'' Hc'']; [lia|].
      rewrite run_cons, Hts'', Hc'', Hc'. split; reflexivity.
Qed.

Lemma elapsed_app (evs evs' : list Event) :
  elapsed (evs ++ evs') = (elapsed evs + elapsed evs')%nat.
Proof.
  induction evs as [|ev evs IH]; [reflexivity|].
  cbn [app]. rewrite !elapsed_cons, IH. lia.
Qed.

Lemma run_app (evs evs' : list Event) (w : World) :
  run (evs ++ evs') w = run evs' (run evs w).
Proof. apply fold_left_app. Qed.

(** An edit followed by 500 time units without another edit is committed,
    once, as it was captured by the edit. *)
Lemma edit_then_quiet_commits (w : World) (v : string) (after : list Event) :
  owns_timers w -> quiet after -> (500 <= elapsed after)%nat ->
  timers (run after (step (Edit v) w)) = [] /\
  commits (run after (step (Edit v) w)) =
  (commits w ++ [commit_of (task (scheduled w v))])%list.
Proof.
  intros Hown Hq Hle.
  destruct (edit_schedules w v Hown) as (_ & _ & _ & _ & Hc).
  destruct (quiet_run_fires after _ _ 500 (edit_pending w v Hown) Hq) as [Hts Hc'];
    [lia|].
  rewrite Hts, Hc', Hc. split; reflexivity.
Qed.

(** Edits that are each superseded in time leave no commit behind. *)
Lemma run_edits_superseded (edits : list (string * list Event)) (w : World) :
  owns_timers w -> Forall superseded edits ->
  owns_timers (run_edits edits w) /\ commits (run_edits edits w) = commits w.
Proof.
  revert w; induction edits as [|[v after] edits IH]; intros w Hown Hall.
  - split; [exact Hown|reflexivity].
  - inversion Hall as [|? ? [Hq Hlt] Hrest]; subst. cbn [snd] in Hq, Hlt.
    destruct (edit_schedules w v Hown) as (_ & _ & _ & _ & Hc).
    destruct (quiet_run_waits after _ _ 500 (edit_pending w v Hown) Hq Hlt)
      as [Hp Hc'].
    destruct (IH _ (pending_owns _ _ _ Hp) Hrest) as [Hown' Hc''].
    cbn [run_edits]. rewrite Hc'', Hc', Hc. split; [exact Hown'|reflexivity].
Qed.

(** ** The claims *)

(** C1.  Take any reachable state and any run of edits in which every edit
    but the last is followed by another one less than 500 time units later,
    whatever else happens in between (re-renders, clicks, lint results).
    When the last edit [v] has been followed by 500 time units without an
    edit, [handleUpdateApiSpec] has been called exactly once more than
    before the run, with a record whose contents are [v] and whose other
    fields are those of the spec record at the last edit; and right after
    the last edit the only pending timer is the one that edit queued, the
    earlier ones having been cleared. *)
Theorem debounce_commits_last_edit
    (w : World) (earlier : list (string * list Event)) (v : string)
    (after : list Event) :
  reachable w -> Forall superseded earlier -> quiet after ->
  (500 <= elapsed after)%nat ->
  let w' := run_edits earlier w in
  let prior := activeApiSpec (wrapperProps (props (this w'))) in
  timers (step (Edit v) w') = [scheduled w' v] /\
  exists r : ApiSpec,
    commits (run after (step (Edit v) w')) =
    (commits w ++ [(handleUpdateApiSpec (props (this w')), r)])%list /\
    contents r = v /\
    _id r = _id prior /\ parentId r = parentId prior /\ others r = others prior.
Proof.
  intros Hw Hall Hq Hle w' prior.
  destruct (run_edits_superseded earlier w (reachable_owns w Hw) Hall) as [Hown Hc].
  fold w' in Hown, Hc.
  destruct (edit_schedules w' v Hown) as (Hts & _).
  destruct (edit_then_quiet_commits w' v after Hown Hq Hle) as [_ Hc'].
  split; [exact Hts|].
  exists (spread_with_contents prior v).
  rewrite Hc', Hc. repeat split.
Qed.

(** C8.  When the commit queued by an edit [v] runs, the record it hands to
    [handleUpdateApiSpec] has [v] as its contents and, in every other field
    (identifier, parent reference, all further properties), what the spec
    record had when the edit was made. *)
Theorem commit_changes_contents_only (w : World) (v : string) (after : list Event) :
  reachable w -> quiet after -> (500 <= elapsed after)%nat ->
  let prior := activeApiSpec (wrapperProps (props (this w))) in
  exists r : ApiSpec,
    commits (run after (step (Edit v) w)) =
    (commits w ++ [(handleUpdateApiSpec (props (this w)), r)])%list /\
    contents r = v /\
    _id r = _id prior /\ parentId r = parentId prior /\ others r = others prior.
Proof.
  intros Hw Hq Hle prior.
  destruct (edit_then_quiet_commits w v after (reachable_owns w Hw) Hq Hle) as [_ Hc].
  exists (spread_with_contents prior v). rewrite Hc. repeat split.
Qed.

(** C9.  The record the commit spreads is the one the props held when the
    edit was made.  If the parent passes new props [p'] while the commit is
    pending, the props are [p'] from then on, yet the commit that runs
    afterwards carries the identifier, parent reference and further
    properties of the old record, and goes to the old callback. *)
Theorem commit_uses_spec_of_edit_time
    (w : World) (v : string) (before : list Event) (p' : Props)
    (after : list Event) :
  reachable w -> quiet before -> quiet after ->
  (elapsed before < 500)%nat -> (500 <= elapsed before + elapsed after)%nat ->
  let prior := activeApiSpec (wrapperProps (props (this w))) in
  let w1 := run (before ++ [Rerender p']) (step (Edit v) w) in
  props (this w1) = p' /\
  exists r : ApiSpec,
    commits (run after w1) =
    (commits w ++ [(handleUpdateApiSpec (props (this w)), r)])%list /\
    contents r = v /\
    _id r = _id prior /\ parentId r = parentId prior /\ others r = others prior.
Proof.
  intros Hw Hqb Hqa Hlt Hle prior w1.
  split.
  - unfold w1. rewrite run_app. cbn.
    unfold dispatch, rerender, componentDidUpdate, bind; cbn.
    destruct (negb _); reflexivity.
  - exists (spread_with_contents prior v).
    assert (quiet (before ++ Rerender p' :: after)) as Hq.
    { apply Forall_app. split; [exact Hqb|]. constructor; [reflexivity|exact Hqa]. }
    destruct (edit_then_quiet_commits w v (before ++ Rerender p' :: after)
                (reachable_owns w Hw) Hq) as [_ Hc].
    { rewrite elapsed_app, elapsed_cons. cbn [duration]. lia. }
    unfold w1. rewrite <- run_app, <- app_assoc. cbn [app].
    rewrite Hc. repeat split.
Qed.

Lemma tick_waits_timers (w : World) (f : Task) (k dt : nat) :
  pending w f k -> (dt < k)%nat -> timers (step (Tick dt) w) = timers w.
Proof.
  intros (t & Hts & Hf & Hdue & Hd) Hlt.
  cbn [step]. rewrite advance_exec, Hts. cbn [length].
  rewrite (run_timers_single _ w t Hts).
  replace (due t <=? now w + dt)%nat with false
    by (symmetry; apply Nat.leb_gt; lia).
  cbn. exact Hts.
Qed.

(** While the commit waits, the queue of timers is not touched at all. *)
Lemma quiet_run_keeps_timers (evs : list Event) (w : World) (f : Task) (k : nat) :
  pending w f k -> quiet evs -> (elapsed evs < k)%nat ->
  timers (run evs w) = timers w.
Proof.
  revert w k; induction evs as [|ev evs IH]; intros w k Hp Hq Hlt; [reflexivity|].
  inversion Hq as [|? ? Hev Hevs]; subst. rewrite elapsed_cons in Hlt.
  assert (forall dt, ev = Tick dt -> (dt < k)%nat) as Htick
    by (intros dt ->; cbn [duration] in Hlt; lia).
  destruct (quiet_step_waits w f k ev Hp Hev Htick) as [Hp' _].
  rewrite run_cons, (IH (step ev w) (k - duration ev)%nat Hp' Hevs) by lia.
  destruct (tick_or_not ev) as [[dt ->]|Hno].
  - apply (tick_waits_timers w f k dt Hp). apply Htick. reflexivity.
  - destruct (step_same_schedule ev w Hev Hno) as (Hts & _). exact Hts.
Qed.

(** C6, as the code has it.  The class has no [componentWillUnmount]:
    teardown, at any moment while the commit of an edit is pending, leaves
    the timer that edit queued where it is, and once 500 time units have
    passed since the edit the commit runs all the same. *)
Theorem teardown_leaves_commit_pending
    (w : World) (v : string) (before after : list Event) :
  reachable w -> quiet before -> (elapsed before < 500)%nat -> quiet after ->
  (500 <= elapsed before + elapsed after)%nat ->
  let w1 := step Unmount (run before (step (Edit v) w)) in
  timers w1 = [scheduled w v] /\
  commits (run after w1) =
  (commits w ++
     [(handleUpdateApiSpec (props (this w)),
       spread_with_contents (activeApiSpec (wrapperProps (props (this w)))) v)])%list.
Proof.
  intros Hw Hqb Hlt Hqa Hle w1. pose proof (reachable_owns w Hw) as Hown.
  split.
  - destruct (step_same_schedule Unmount (run before (step (Edit v) w))) as (Hts & _);
      [reflexivity | discriminate |].
    destruct (edit_schedules w v Hown) as (Hts' & _).
    unfold w1.
    rewrite Hts, (quiet_run_keeps_timers before _ _ 500 (edit_pending w v Hown) Hqb Hlt).
    exact Hts'.
  - destruct (edit_then_quiet_commits w v (before ++ Unmount :: after) Hown) as [_ Hc].
    + apply Forall_app. split; [exact Hqb|]. constructor; [reflexivity|exact Hqa].
    + rewrite elapsed_app, elapsed_cons. cbn [duration]. lia.
    + rewrite run_app, run_cons in Hc. exact Hc.
Qed.

(** ** Linting *)

(** C2.  One run of [_reLint] on a mounted instance, from the call of
    [spectral.run] to the moment its promise resolves with [results]:
    whatever the list of diagnostics was before, it is now the image of
    [results] under [to_notice], same length and same order, where the
    element for a result [r] has type "error" if [r]'s severity is 0 and
    "warning" otherwise, as message [r]'s code, a space and [r]'s message, as
    line the start line of [r]'s range, and keeps that range.
    [previewActive] is untouched. *)
Theorem reLint_replaces_lintMessages (w : World) (results : list Violation.t) :
  mounted w = true ->
  let w' := settle_lint (Return results) (exec _reLint w) in
  lintMessages (state (this w')) = map to_notice results /\
  previewActive (state (this w')) = previewActive (state (this w)) /\
  length (lintMessages (state (this w'))) = length results /\
  forall (i : nat) (r : Violation.t),
    results !! i = Some r ->
    lintMessages (state (this w')) !! i =
    Some {| Notice.type := (if (Violation.severity r =? 0)%Z
                            then "error" else "warning");
            Notice.message := Violation.code r ++ " " ++ Violation.message r;
            Notice.line := line (start (Violation.range r));
            Notice._range := Violation.range r |}.
Proof.
  intros Hm w'.
  assert (lintMessages (state (this w')) = map to_notice results) as Hl.
  { unfold w', settle_lint, exec, _reLint, bind; cbn.
    unfold setState, bind; cbn. rewrite Hm; cbn.
    rewrite String.eqb_refl; reflexivity. }
  repeat split.
  - exact Hl.
  - unfold w', settle_lint, exec, _reLint, bind; cbn.
    unfold setState, bind; cbn. rewrite Hm; cbn.
    rewrite String.eqb_refl; reflexivity.
  - rewrite Hl. apply length_map.
  - intros i r Hi. rewrite Hl, list_lookup_fmap, Hi. reflexivity.
Qed.

(** C7.  One run of [_reLint] whose [spectral.run] promise rejects with
    [e]: the continuation throws [e] without changing anything, nothing in
    the component catches it, so the host sees an unhandled rejection; the
    state, and with it the list of diagnostics, is what it was before the
    run. *)
Theorem reLint_rejection_unhandled (w : World) (e : Error) :
  let w1 := exec _reLint w in
  let w' := settle_lint (Throw e) w1 in
  (forall w0, _reLint_resume (Throw e) w0 = (Throw e, w0)) /\
  trace w' = (trace w1 ++ [UnhandledRejection e])%list /\
  state (this w') = state (this w) /\
  lintMessages (state (this w')) = lintMessages (state (this w)).
Proof. repeat split. Qed.

(** C4.  First display calls [spectral.run] exactly once, on the initial
    contents.  After that, a render with new props calls it once more, on
    the new contents, exactly when these differ as strings from the contents
    of the props before; a render caused by the component's own state
    (the preview toggle, a lint result coming in) never does. *)
Theorem lint_on_mount_and_content_change :
  (forall (p : Props) (e : Editor),
      lint_runs (mount p e) = [contents (activeApiSpec (wrapperProps p))]) /\
  (forall (w : World) (p' : Props),
      let old := contents (activeApiSpec (wrapperProps (props (this w)))) in
      let new := contents (activeApiSpec (wrapperProps p')) in
      lint_runs (step (Rerender p') w) =
      (lint_runs w ++ if decide (new = old) then [] else [new])%list) /\
  (forall w : World, lint_runs (step TogglePreview w) = lint_runs w) /\
  (forall (w : World) (results : list Violation.t),
      lint_runs (step (LintSettled (Return results)) w) = lint_runs w).
Proof.
  repeat split.
  - intros w p' old new. cbn.
    unfold dispatch, rerender, componentDidUpdate, bind; cbn. fold old new.
    destruct (String.eqb_spec new old) as [Heq|Hne];
      destruct (decide (new = old)) as [Heq'|Hne']; try contradiction; cbn.
    + rewrite app_nil_r. reflexivity.
    + unfold lint_runs; cbn. rewrite omap_app. reflexivity.
  - intros w. cbn.
    unfold dispatch, _handleTogglePreview, setState, componentDidUpdate, bind; cbn.
    destruct (mounted w); cbn; rewrite ?String.eqb_refl; reflexivity.
  - intros w results. cbn. unfold settle_lint.
    destruct (lint_in_flight w); [reflexivity|].
    unfold bind; cbn. unfold setState, bind; cbn.
    destruct (mounted w); cbn; rewrite ?String.eqb_refl; reflexivity.
Qed.

(** ** Clicks *)

(** What the sidebar's selection handler does: with an editor attached, one
    call of its [setSelection] with the four numbers in the order given;
    with none, nothing. *)
Lemma handleSetSelection_spec (w : World) (chStart chEnd lineStart lineEnd : Z) :
  _handleSetSelection chStart chEnd lineStart lineEnd w =
  (Return tt,
   match editor (this w) with
   | Some e => exec (emit (SetSelection e chStart chEnd lineStart lineEnd)) w
   | None => w
   end).
Proof.
  unfold _handleSetSelection, bind; cbn. destruct (editor (this w)); reflexivity.
Qed.

(** C3, as the code has it.  The click handler of a diagnostic calls
    [this.setSelection], a name the class does not define (the method is
    [_handleSetSelection]): whatever the diagnostic and whether or not an
    editor is attached, the handler throws a TypeError, changes nothing and
    never reaches the editor. *)
Theorem lint_click_throws (notice : Notice.t) (w : World) :
  _handleLintClick notice w =
  (Throw (TypeError "this.setSelection is not a function"), w) /\
  trace (step (NoticeClick notice) w) =
  (trace w ++ [UncaughtError (TypeError "this.setSelection is not a function")])%list.
Proof. split; reflexivity. Qed.

(** C10.  Whatever index the breadcrumb reports, the handler calls the
    parent's [handleSetActiveActivity] once, with [ACTIVITY_HOME], and does
    nothing else. *)
Theorem breadcrumb_goes_home (index : Z) (w : World) :
  _handleBreadcrumb index w =
  (Return tt,
   exec (emit (SetActiveActivity
                 (handleSetActiveActivity (wrapperProps (props (this w))))
                 ACTIVITY_HOME)) w) /\
  trace (step (BreadcrumbClick index) w) =
  (trace w ++ [SetActiveActivity
                 (handleSetActiveActivity (wrapperProps (props (this w))))
                 ACTIVITY_HOME])%list /\
  this (step (BreadcrumbClick index) w) = this w.
Proof. repeat split. Qed.

(** * More of the component *)

(** ** What the other events leave alone *)

Ltac crush_lint :=
  repeat split; cbn;
  try reflexivity;
  unfold lint_runs; cbn;
  rewrite ?omap_app; cbn; rewrite ?app_nil_r; reflexivity.

Lemma fire_lint_runs (t : Timer) (w : World) :
  lint_runs (exec (fire t) w) = lint_runs w.
Proof. destruct t as [i d [h s v]]. crush_lint. Qed.

Lemma run_timers_round (fuel deadline : nat) (w : World) :
  exec (run_timers (S fuel) deadline) w =
  match earliest (timers w) with
  | Some t =>
      if (due t <=? deadline)%nat
      then exec (run_timers fuel deadline) (exec (fire t) w)
      else w
  | None => w
  end.
Proof.
  unfold exec at 1; cbn [run_timers]. unfold bind at 1, get_world; cbv beta iota.
  destruct (earliest (timers w)) as [t|]; [|reflexivity].
  destruct (due t <=? deadline)%nat; [|reflexivity].
  unfold bind. destruct (fire_spec t w) as (Hret & _). rewrite Hret. reflexivity.
Qed.

Lemma run_timers_keeps (fuel deadline : nat) (w : World) :
  lint_runs (exec (run_timers fuel deadline) w) = lint_runs w /\
  this (exec (run_timers fuel deadline) w) = this w.
Proof.
  revert w; induction fuel as [|fuel IH]; intros w; [split; reflexivity|].
  rewrite run_timers_round.
  destruct (earliest (timers w)) as [t|]; [|split; reflexivity].
  destruct (due t <=? deadline)%nat; [|split; reflexivity].
  destruct (fire_spec t w) as (_ & _ & _ & Hthis & _).
  destruct (IH (exec (fire t) w)) as [Hl Ht].
  rewrite Hl, Ht, Hthis. split; [apply fire_lint_runs|reflexivity].
Qed.

Lemma rerender_props (p : Props) (w : World) :
  props (this (step (Rerender p) w)) = p.
Proof.
  cbn. unfold dispatch, rerender, componentDidUpdate, bind; cbn.
  destruct (negb _); reflexivity.
Qed.

(** Only new props make the component lint, and only the parent changes the
    props. *)
Lemma step_same_props (ev : Event) (w : World) :
  is_rerender ev = false ->
  lint_runs (step ev w) = lint_runs w /\
  props (this (step ev w)) = props (this w).
Proof.
  intros Hre.
  destruct ev as [dt|v|p|settled|n| | | |index|notice|a b c d|];
    try discriminate Hre.
  - cbn [step]. rewrite advance_exec.
    destruct (run_timers_keeps (length (timers w)) (now w + dt) w) as [Hl Ht].
    split; [exact Hl | exact (f_equal props Ht)].
  - cbn. unfold dispatch, _handleOnChange, clearTimeout, bind, get_this; cbn.
    destruct (debounceTimeout (this w)); split; reflexivity.
  - cbn. unfold settle_lint. destruct (lint_in_flight w) as [|k]; [split; reflexivity|].
    destruct settled as [results|e]; cbn.
    + unfold setState, bind; cbn.
      destruct (mounted w); cbn; rewrite ?String.eqb_refl; cbn; split; reflexivity.
    + crush_lint.
  - crush_lint.
  - cbn. unfold dispatch, _handleTogglePreview, setState, componentDidUpdate, bind; cbn.
    destruct (mounted w); cbn; rewrite ?String.eqb_refl; cbn; split; reflexivity.
  - crush_lint.
  - crush_lint.
  - crush_lint.
  - crush_lint.
  - cbn. unfold dispatch, _handleSetSelection, bind; cbn.
    destruct (editor (this w)); crush_lint.
  - crush_lint.
Qed.

Lemma run_same_props (evs : list Event) (w : World) :
  same_props evs ->
  lint_runs (run evs w) = lint_runs w /\
  props (this (run evs w)) = props (this w).
Proof.
  revert w; induction evs as [|ev evs IH]; intros w Hall; [split; reflexivity|].
  inversion Hall as [|? ? Hev Hevs]; subst.
  destruct (step_same_props ev w Hev) as [Hl Hp].
  destruct (IH (step ev w) Hevs) as [Hl' Hp'].
  rewrite run_cons, Hl', Hp', Hl, Hp. split; reflexivity.
Qed.

(** ** The debounce, further *)

Lemma step_one_pending (ev : Event) (w : World) :
  owns_timers w -> (length (timers w) <= 1)%nat ->
  (length (timers (step ev w)) <= 1)%nat.
Proof.
  intros Hown Hlen.
  destruct (is_edit ev) eqn:Hedit.
  - destruct ev; try discriminate Hedit.
    destruct (edit_schedules w v Hown) as (Hts & _). rewrite Hts. cbn. lia.
  - destruct (tick_or_not ev) as [[dt ->]|Hno].
    + destruct (timers w) as [|t [|u ts]] eqn:Hts; [| |cbn in Hlen; lia].
      * destruct (tick_idle w dt Hts) as [Hts' _]. rewrite Hts'. cbn. lia.
      * cbn [step]. rewrite advance_exec, Hts. cbn [length].
        rewrite (run_timers_single _ w t Hts).
        destruct (due t <=? now w + dt)%nat.
        -- destruct (fire_spec t w) as (_ & Hfts & _).
           change (length (timers (exec (fire t) w)) <= 1)%nat.
           rewrite Hfts, Hts, filter_cons.
           destruct (decide (timer_id t <> timer_id t)); [congruence|cbn; lia].
        -- change (length (timers w) <= 1)%nat. rewrite Hts. cbn. lia.
    + destruct (step_same_schedule ev w Hedit Hno) as (Hts & _).
      rewrite Hts. exact Hlen.
Qed.

(** X1.  In every state the component can reach, at most one timer is
    pending, and a pending timer is the one [this.debounceTimeout] names: the
    component never has two commits queued. *)
Theorem at_most_one_commit_pending (w : World) :
  reachable w ->
  (length (timers w) <= 1)%nat /\
  Forall (fun t => debounceTimeout (this w) = Some (timer_id t)) (timers w).
Proof.
  induction 1 as [p e|ev w _ [IHlen IHown]].
  - split; [cbn; lia|constructor].
  - split; [apply step_one_pending; assumption|apply step_owns, IHown].
Qed.

(** X2.  An edit is never committed early: as long as less than 500 time
    units have passed since the edit, whatever else happened meanwhile,
    [handleUpdateApiSpec] has not been called again, not even for a commit
    that was pending when the edit came. *)
Theorem no_commit_before_500 (w : World) (v : string) (after : list Event) :
  reachable w -> quiet after -> (elapsed after < 500)%nat ->
  commits (run after (step (Edit v) w)) = commits w.
Proof.
  intros Hw Hq Hlt. pose proof (reachable_owns w Hw) as Hown.
  destruct (edit_schedules w v Hown) as (_ & _ & _ & _ & Hc).
  destruct (quiet_run_waits after _ _ 500 (edit_pending w v Hown) Hq Hlt) as [_ Hc'].
  rewrite Hc', Hc. reflexivity.
Qed.

Lemma run_edits_left_alone (edits : list (string * list Event)) (w : World) :
  owns_timers w -> Forall left_alone edits ->
  exists cs : list (Handler * ApiSpec),
    commits (run_edits edits w) = (commits w ++ cs)%list /\
    map (fun c => contents (snd c)) cs = map fst edits.
Proof.
  revert w; induction edits as [|[v after] edits IH]; intros w Hown Hall.
  - exists []. rewrite app_nil_r. split; reflexivity.
  - inversion Hall as [|? ? [Hq Hle] Hrest]; subst. cbn [snd] in Hq, Hle.
    destruct (edit_then_quiet_commits w v after Hown Hq Hle) as [Hts Hc].
    assert (owns_timers (run after (step (Edit v) w))) as Hown'
      by (unfold owns_timers; rewrite Hts; constructor).
    destruct (IH _ Hown' Hrest) as (cs & Hcs & Hmap).
    exists (commit_of (task (scheduled w v)) :: cs).
    cbn [run_edits]. rewrite Hcs, Hc, <- app_assoc. split; [reflexivity|].
    cbn. rewrite Hmap. reflexivity.
Qed.

(** X3.  Edits that are each left alone for at least 500 time units are each
    committed: after the run [handleUpdateApiSpec] has been called once per
    edit, in the order of the edits, each call carrying the text of its
    edit. *)
Theorem spaced_edits_each_commit (w : World) (edits : list (string * list Event)) :
  reachable w -> Forall left_alone edits ->
  exists cs : list (Handler * ApiSpec),
    commits (run_edits edits w) = (commits w ++ cs)%list /\
    map (fun c => contents (snd c)) cs = map fst edits.
Proof.
  intros Hw Hall. apply run_edits_left_alone; [apply reachable_owns, Hw|exact Hall].
Qed.

(** X4.  Without an edit there is no commit: whatever happens after first
    display (time passing, re-renders, clicks, lint results, teardown), as
    long as the user does not type, [handleUpdateApiSpec] is never called and
    no timer is ever queued. *)
Theorem no_edit_no_commit (p : Props) (e : Editor) (evs : list Event) :
  quiet evs ->
  commits (run evs (mount p e)) = [] /\ timers (run evs (mount p e)) = [].
Proof.
  intros Hq.
  destruct (quiet_run_idle evs (mount p e) eq_refl Hq) as [Hts Hc].
  rewrite Hts, Hc. split; reflexivity.
Qed.

(** ** Linting, further *)

(** X5.  Typing does not lint, nor does a commit going out, a click, or a
    lint result coming in: over any run of events in which the parent passes
    no new props, [spectral.run] is not called and the props stay what they
    were. *)
Theorem lint_only_on_new_props (w : World) (evs : list Event) :
  same_props evs ->
  lint_runs (run evs w) = lint_runs w /\
  props (this (run evs w)) = props (this w).
Proof. apply run_same_props. Qed.

(** X6.  From keystroke to linter.  An edit [v], then at least 500 time units
    with no edit and no new props: the commit goes out with a record [r];
    when the parent then passes the props with [r] as the spec record,
    [spectral.run] is called once more, on [v], unless [v] is the text the
    record already had, in which case it is not called. *)
Theorem edit_reaches_linter (w : World) (v : string) (after : list Event) :
  reachable w -> quiet after -> same_props after -> (500 <= elapsed after)%nat ->
  let old := contents (activeApiSpec (wrapperProps (props (this w)))) in
  let w1 := run after (step (Edit v) w) in
  exists r : ApiSpec,
    commits w1 = (commits w ++ [(handleUpdateApiSpec (props (this w)), r)])%list /\
    lint_runs (step (Rerender (with_activeApiSpec (props (this w)) r)) w1) =
    (lint_runs w ++ if decide (v = old) then [] else [v])%list.
Proof.
  intros Hw Hq Hsame Hle old w1.
  destruct (edit_then_quiet_commits w v after (reachable_owns w Hw) Hq Hle) as [_ Hc].
  exists (spread_with_contents (activeApiSpec (wrapperProps (props (this w)))) v).
  split; [exact Hc|].
  destruct (step_same_props (Edit v) w eq_refl) as [Hl0 Hp0].
  destruct (run_same_props after (step (Edit v) w) Hsame) as [Hl1 Hp1].
  fold w1 in Hl1, Hp1. rewrite Hl0 in Hl1. rewrite Hp0 in Hp1.
  cbn. unfold dispatch, rerender, componentDidUpdate, bind; cbn.
  rewrite Hp1. fold old.
  destruct (String.eqb_spec v old) as [Heq|Hne];
    destruct (decide (v = old)) as [Heq'|Hne']; try contradiction; cbn.
  - rewrite app_nil_r. exact Hl1.
  - unfold lint_runs in *; cbn. rewrite omap_app, Hl1. reflexivity.
Qed.

Lemma settle_lint_spec (o : Outcome (list Violation.t)) (w : World) (k : nat) :
  mounted w = true -> lint_in_flight w = S k ->
  mounted (settle_lint o w) = true /\
  lint_in_flight (settle_lint o w) = k /\
  lintMessages (state (this (settle_lint o w))) =
  match o with
  | Return results => map to_notice results
  | Throw _ => lintMessages (state (this w))
  end.
Proof.
  intros Hm Hk. unfold settle_lint. rewrite Hk.
  destruct o as [results|e]; cbn.
  - unfold setState, bind; cbn. rewrite Hm; cbn.
    rewrite String.eqb_refl; cbn. repeat split.
  - repeat split; exact Hm.
Qed.

(** X7.  Overlapping lint runs on a mounted instance: no run is cancelled and
    none is told apart from another.  When the promises of runs in flight
    settle one after the other, the diagnostics end up being those of the
    promise that resolved last, whichever run it belonged to; promises that
    reject change nothing, and if all reject the diagnostics stay what they
    were. *)
Theorem last_resolved_lint_wins
    (settled : list (Outcome (list Violation.t))) (w : World) :
  mounted w = true ->
  (length settled <= lint_in_flight w)%nat ->
  lintMessages (state (this (settle_all settled w))) =
  match last_resolved settled with
  | Some results => map to_notice results
  | None => lintMessages (state (this w))
  end.
Proof.
  revert w; induction settled as [|o settled IH]; intros w Hm Hlen; [reflexivity|].
  cbn [length] in Hlen.
  destruct (lint_in_flight w) as [|k] eqn:Hk; [lia|].
  destruct (settle_lint_spec o w k Hm Hk) as (Hm' & Hk' & Hl).
  change (settle_all (o :: settled) w) with (settle_all settled (settle_lint o w)).
  rewrite (IH _ Hm') by (rewrite Hk'; lia).
  cbn [last_resolved]. destruct (last_resolved settled); [reflexivity|].
  rewrite Hl. destruct o; reflexivity.
Qed.

(** Once the instance is torn down, a lint result that comes in is dropped:
    the promise still settles, but the list of diagnostics is not replaced. *)
Lemma settle_lint_after_teardown (o : Outcome (list Violation.t)) (w : World) :
  mounted w = false ->
  state (this (settle_lint o w)) = state (this w).
Proof.
  intros Hm. unfold settle_lint. destruct (lint_in_flight w) as [|k]; [reflexivity|].
  destruct o as [results|e]; cbn; [|reflexivity].
  unfold setState, bind; cbn. rewrite Hm. reflexivity.
Qed.

(** ** Clicks, further *)

(** X8.  The sidebar's selection goes to the editor whose ref was attached
    last: after [_setEditorRef] with an editor, one call of that editor's
    [setSelection] with (chStart, chEnd, lineStart, lineEnd) in this order;
    after [_setEditorRef] with nothing, no call at all and no fault.  The
    instance is otherwise untouched. *)
Theorem selection_goes_to_latest_ref
    (w : World) (n : option Editor) (chStart chEnd lineStart lineEnd : Z) :
  let w' := step (SidebarSelect chStart chEnd lineStart lineEnd)
                 (step (EditorRef n) w) in
  trace w' =
  (trace w ++ match n with
              | Some e => [SetSelection e chStart chEnd lineStart lineEnd]
              | None => []
              end)%list /\
  editor (this w') = n /\
  state (this w') = state (this w) /\ timers w' = timers w.
Proof.
  destruct n as [e|]; cbn; repeat split. rewrite app_nil_r. reflexivity.
Qed.

(** X9.  On a mounted instance the preview toggle flips [previewActive] and
    nothing else: the diagnostics, the props, the timers and the trace are
    untouched (no lint, no commit), and toggling twice gives back the very
    same state. *)
Theorem toggle_preview_flips (w : World) :
  mounted w = true ->
  let w' := step TogglePreview w in
  previewActive (state (this w')) = negb (previewActive (state (this w))) /\
  lintMessages (state (this w')) = lintMessages (state (this w)) /\
  props (this w') = props (this w) /\
  timers w' = timers w /\ trace w' = trace w /\
  step TogglePreview w' = w.
Proof.
  destruct w as [[p [b l] ed d] m n ts nt lf tr]. cbn. intros ->.
  unfold dispatch, _handleTogglePreview, setState, componentDidUpdate, bind; cbn.
  rewrite String.eqb_refl; cbn.
  repeat split.
  unfold bind; cbn. rewrite String.eqb_refl; cbn. rewrite negb_involutive.
  reflexivity.
Qed.

(** X10.  The DEBUG switch and the Generate Config button act on the spec
    record of the props as they are at the click: right after the parent has
    passed props [p], the switch calls [p]'s [handleSetDebugActivity] with
    [p]'s record and the button opens the modal on [p]'s record; each makes
    that one call and leaves the instance and the timers alone. *)
Theorem debug_and_config_use_current_props (w : World) (p : Props) :
  let w1 := step (Rerender p) w in
  let apiSpec := activeApiSpec (wrapperProps p) in
  trace (step DebugSpec w1) =
  (trace w1 ++ [SetDebugActivity (handleSetDebugActivity p) apiSpec])%list /\
  trace (step GenerateConfig w1) =
  (trace w1 ++ [ShowModal "GenerateConfigModal" apiSpec])%list /\
  this (step DebugSpec w1) = this w1 /\ this (step GenerateConfig w1) = this w1 /\
  timers (step DebugSpec w1) = timers w1 /\ timers (step GenerateConfig w1) = timers w1.
Proof.
  intros w1 apiSpec. pose proof (rerender_props p w) as Hp. fold w1 in Hp.
  clearbody w1. subst apiSpec. destruct w1 as [[p1 st ed d] m n ts nt lf tr].
  cbn in Hp. subst p1. repeat split.
Qed.

End WrapperDesign.

(** ** What the preview shows *)

Section PreviewProperties.

Variable YAML_parse : string -> Outcome val.

(** C5, as the code has it.  [render] always returns.  The structure it
    hands to the preview is what [YAML.parse] made of the contents when that
    is a truthy value, and the empty object when [YAML.parse] throws or
    returns a falsy value ([null], [false], [0], [NaN], the empty
    string). *)
Theorem render_preview (c : Component) :
  exists view : View,
    render YAML_parse c = Return view /\
    swaggerSpec view =
    match YAML_parse (contents (activeApiSpec (wrapperProps (props c)))) with
    | Return parsed => if truthy parsed then parsed else empty_object
    | Throw _ => empty_object
    end.
Proof.
  unfold render.
  destruct (YAML_parse (contents (activeApiSpec (wrapperProps (props c)))))
    as [parsed|err]; cbn; eexists; split; reflexivity.
Qed.

(** X11.  The table of diagnostics follows the lint run: once a run on a
    mounted instance has resolved with [results], [render] shows no table
    when [results] is empty, and otherwise the table of their notices, in
    order; whatever the contents parse to. *)
Theorem diagnostics_table_after_lint (w : World) (results : list Violation.t) :
  mounted w = true ->
  exists view : View,
    render YAML_parse (this (settle_lint (Return results) (exec _reLint w))) =
    Return view /\
    notices view =
    match results with
    | [] => None
    | _ => Some (map to_notice results)
    end.
Proof.
  intros Hm.
  assert (lintMessages (state (this (settle_lint (Return results) (exec _reLint w))))
          = map to_notice results) as Hl.
  { unfold settle_lint, exec, _reLint, bind; cbn.
    unfold setState, bind; cbn. rewrite Hm; cbn.
    rewrite String.eqb_refl; reflexivity. }
  unfold render. rewrite Hl.
  destruct (YAML_parse _) as [parsed|err]; cbn;
    eexists; (split; [reflexivity|]); destruct results; reflexivity.
Qed.

End PreviewProperties.

(** * The properties on the sample data *)

(** The class declares neither a [setSelection] nor a
    [componentWillUnmount], and React supplies neither. *)
Lemma names_not_declared :
  declares "setSelection" = false /\
  declares "componentWillUnmount" = false /\
  assoc "setSelection" (numeric_methods "home") = None /\
  assoc "componentWillUnmount" lifecycle_hooks = None.
Proof. repeat split; vm_compute; reflexivity. Qed.

(** The tables name nothing but methods of the class body. *)
Lemma tables_within_class_body :
  forallb declares
          (map fst (numeric_methods "home") ++ map fst lifecycle_hooks) = true.
Proof. vm_compute. reflexivity. Qed.

(** The violation of the spec's example. *)
Example to_notice_example :
  map to_notice
      [ {| Violation.severity := 0; Violation.code := "E1";
           Violation.message := "bad";
           Violation.range :=
             {| start := {| line := 2; character := 0 |};
                end_ := {| line := 2; character := 10 |} |} |} ] =
  [ {| Notice.type := "error"; Notice.message := "E1 bad"; Notice.line := 2;
       Notice._range :=
         {| start := {| line := 2; character := 0 |};
            end_ := {| line := 2; character := 10 |} |} |} ].
Proof. reflexivity. Qed.

(** Edits 500 time units apart are each committed. *)
Example edits_beyond_window_example :
  commits (run "home" [Edit "a"; Tick 500; Edit "ab"; Tick 500]
             (mount sample_props 7)) =
  [ (1%nat, spread_with_contents sample_spec "a");
    (1%nat, spread_with_contents sample_spec "ab") ].
Proof. vm_compute. reflexivity. Qed.

(** The sidebar's handler reaches the editor, in the order it was given. *)
Example sidebar_select_example :
  trace (step "home" (SidebarSelect 5 2 3 4) (mount sample_props 7)) =
  [ SpectralRun "openapi: 3.0.0"; SetSelection 7 5 2 3 4 ].
Proof. reflexivity. Qed.

(** A click on a diagnostic with range (3,5)-(4,2) does not. *)
Example lint_click_example :
  trace (step "home"
           (NoticeClick
              {| Notice.type := "error"; Notice.message := "E1 bad";
                 Notice.line := 3;
                 Notice._range :=
                   {| start := {| line := 3; character := 5 |};
                      end_ := {| line := 4; character := 2 |} |} |})
           (mount sample_props 7)) =
  [ SpectralRun "openapi: 3.0.0";
    UncaughtError (TypeError "this.setSelection is not a function") ].
Proof. reflexivity. Qed.

(** The sample document on screen: parsed, and no table of diagnostics. *)
Example render_example :
  render yaml_sample (this (mount sample_props 7)) =
  Return {| crumbs := ["Documents"; "Petstore"];
            previewLabel := "Preview: On";
            previewHidden := false;
            swaggerSpec := VObj {[ "openapi" := VStr "3.0.0" ]};
            defaultValue := "openapi: 3.0.0";
            uniquenessKey := "spc_1";
            notices := None |}.
Proof. reflexivity. Qed.

Ltac quiet_events := repeat constructor.

Ltac in_time := cbn; lia.

(** Two edits, each overtaken within 500 time units (the second one after a
    re-render), then a third that is left alone: one commit, of the third. *)
Lemma debounce_commits_last_edit_witness :
  exists r : ApiSpec,
    commits
      (run "home" [Tick 500]
         (step "home" (Edit "openapi: 3.0.1")
            (run_edits "home"
               [("o", [Tick 120]); ("op", [Rerender renamed_props; Tick 499])]
               (mount sample_props 7)))) =
    [(1%nat, r)] /\
    contents r = "openapi: 3.0.1" /\
    _id r = "spc_1" /\ parentId r = "wrk_1" /\
    others r = {[ "fileName" := VStr "store.yaml" ]}.
Proof.
  refine (proj2 (debounce_commits_last_edit "home" (mount sample_props 7)
                   [("o", [Tick 120]); ("op", [Rerender renamed_props; Tick 499])]
                   "openapi: 3.0.1" [Tick 500] _ _ _ _)).
  - apply reachable_mount.
  - constructor; [split; [quiet_events|in_time]|].
    constructor; [split; [quiet_events|in_time]|].
    constructor.
  - quiet_events.
  - in_time.
Defined.

Lemma commit_changes_contents_only_witness :
  exists r : ApiSpec,
    commits (run "home" [Tick 500] (step "home" (Edit "x") (mount sample_props 7))) =
    [(1%nat, r)] /\
    contents r = "x" /\ _id r = "spc_1" /\ parentId r = "wrk_1" /\
    others r = {[ "fileName" := VStr "petstore.yaml" ]}.
Proof.
  refine (commit_changes_contents_only "home" (mount sample_props 7) "x"
            [Tick 500] _ _ _).
  - apply reachable_mount.
  - quiet_events.
  - in_time.
Defined.

(** The file is renamed 200 time units after an edit: the commit that runs
    300 time units later still carries the old file name. *)
Lemma commit_uses_spec_of_edit_time_witness :
  props (this (run "home" ([Tick 200] ++ [Rerender renamed_props])
                 (step "home" (Edit "x") (mount sample_props 7)))) =
  renamed_props /\
  exists r : ApiSpec,
    commits (run "home" [Tick 300]
               (run "home" ([Tick 200] ++ [Rerender renamed_props])
                  (step "home" (Edit "x") (mount sample_props 7)))) =
    [(1%nat, r)] /\
    contents r = "x" /\ _id r = "spc_1" /\ parentId r = "wrk_1" /\
    others r = {[ "fileName" := VStr "petstore.yaml" ]}.
Proof.
  refine (commit_uses_spec_of_edit_time "home" (mount sample_props 7) "x"
            [Tick 200] renamed_props [Tick 300] _ _ _ _ _).
  - apply reachable_mount.
  - quiet_events.
  - quiet_events.
  - in_time.
  - in_time.
Defined.

Lemma teardown_leaves_commit_pending_witness :
  timers (step "home" Unmount
            (run "home" [Tick 200] (step "home" (Edit "x") (mount sample_props 7)))) =
  [scheduled (mount sample_props 7) "x"] /\
  commits (run "home" [Tick 300]
             (step "home" Unmount
                (run "home" [Tick 200]
                   (step "home" (Edit "x") (mount sample_props 7))))) =
  [(1%nat, spread_with_contents sample_spec "x")].
Proof.
  refine (teardown_leaves_commit_pending "home" (mount sample_props 7) "x"
            [Tick 200] [Tick 300] _ _ _ _ _).
  - apply reachable_mount.
  - quiet_events.
  - in_time.
  - quiet_events.
  - in_time.
Defined.

(** The first lint run of the sample resolves with one violation. *)
Lemma reLint_replaces_lintMessages_witness :
  lintMessages
    (state (this (settle_lint
                    (Return [ {| Violation.severity := 0; Violation.code := "E1";
                                 Violation.message := "bad";
                                 Violation.range :=
                                   {| start := {| line := 2; character := 0 |};
                                      end_ := {| line := 2; character := 10 |} |} |} ])
                    (exec _reLint (mount sample_props 7))))) =
  [ {| Notice.type := "error"; Notice.message := "E1 bad"; Notice.line := 2;
       Notice._range := {| start := {| line := 2; character := 0 |};
                           end_ := {| line := 2; character := 10 |} |} |} ].
Proof.
  exact (proj1 (reLint_replaces_lintMessages (mount sample_props 7)
                  [ {| Violation.severity := 0; Violation.code := "E1";
                       Violation.message := "bad";
                       Violation.range :=
                         {| start := {| line := 2; character := 0 |};
                            end_ := {| line := 2; character := 10 |} |} |} ]
                  eq_refl)).
Defined.

(** C6 as stated fails: an edit, teardown, 500 time units, and the commit has
    run. *)
Lemma teardown_cancels_counterexample :
  ~ (forall (ACTIVITY_HOME : string) (w : World) (f : Task) (k : nat)
            (after : list Event),
        reachable ACTIVITY_HOME w -> pending w f k -> quiet after ->
        commits (run ACTIVITY_HOME after (step ACTIVITY_HOME Unmount w)) = commits w).
Proof.
  intros H.
  specialize (H "home" (step "home" (Edit "x") (mount sample_props 7))
                (task (scheduled (mount sample_props 7) "x")) 500%nat [Tick 500]).
  assert (length (commits (run "home" [Tick 500]
            (step "home" Unmount (step "home" (Edit "x") (mount sample_props 7)))))
          = length (commits (step "home" (Edit "x") (mount sample_props 7)))) as Hlen.
  { f_equal. apply H.
    - apply reachable_step, reachable_mount.
    - apply edit_pending, mount_owns.
    - quiet_events. }
  vm_compute in Hlen. discriminate Hlen.
Qed.

(** C5 as stated fails: the empty document parses, to [null], and the preview
    gets the empty object instead. *)
Lemma render_parse_result_counterexample :
  ~ (forall (YAML_parse : string -> Outcome val) (c : Component) (parsed : val),
        YAML_parse (contents (activeApiSpec (wrapperProps (props c)))) = Return parsed ->
        exists view : View,
          render YAML_parse c = Return view /\ swaggerSpec view = parsed).
Proof.
  intros H.
  destruct (H yaml_sample
              {| props :=
                   {| gitSyncDropdown := "";
                      wrapperProps :=
                        {| activeApiSpec :=
                             {| _id := "spc_1"; parentId := "wrk_1"; contents := "";
                                others := ∅ |};
                           activeWorkspace := {| name := "Petstore" |};
                           settings := settings (wrapperProps sample_props);
                           handleSetActiveActivity := 3%nat |};
                      handleUpdateApiSpec := 1%nat;
                      handleSetDebugActivity := 2%nat |};
                 state := initial_state; editor := Some 7%nat;
                 debounceTimeout := None |}
              VNull eq_refl) as (view & Hrender & Hspec).
  cbn in Hrender. injection Hrender as <-. discriminate Hspec.
Qed.

(** ** More of the component, on the sample data *)

Lemma at_most_one_commit_pending_witness :
  (length (timers (step "home" (Edit "x") (mount sample_props 7))) <= 1)%nat /\
  Forall (fun t => debounceTimeout (this (step "home" (Edit "x") (mount sample_props 7)))
                   = Some (timer_id t))
         (timers (step "home" (Edit "x") (mount sample_props 7))).
Proof.
  apply (at_most_one_commit_pending "home"), reachable_step, reachable_mount.
Defined.

(** 499 time units after an edit, nothing has been committed. *)
Lemma no_commit_before_500_witness :
  commits (run "home" [Tick 499] (step "home" (Edit "x") (mount sample_props 7))) = [].
Proof.
  refine (no_commit_before_500 "home" (mount sample_props 7) "x" [Tick 499] _ _ _).
  - apply reachable_mount.
  - quiet_events.
  - in_time.
Defined.

Lemma spaced_edits_each_commit_witness :
  exists cs : list (Handler * ApiSpec),
    commits (run_edits "home" [("a", [Tick 500]); ("ab", [Tick 700])]
               (mount sample_props 7)) = cs /\
    map (fun c => contents (snd c)) cs = ["a"; "ab"].
Proof.
  refine (spaced_edits_each_commit "home" (mount sample_props 7)
            [("a", [Tick 500]); ("ab", [Tick 700])] _ _).
  - apply reachable_mount.
  - constructor; [split; [quiet_events|in_time]|].
    constructor; [split; [quiet_events|in_time]|].
    constructor.
Defined.

Lemma no_edit_no_commit_witness :
  commits (run "home" [Tick 1000; TogglePreview; Rerender renamed_props; Unmount]
             (mount sample_props 7)) = [] /\
  timers (run "home" [Tick 1000; TogglePreview; Rerender renamed_props; Unmount]
            (mount sample_props 7)) = [].
Proof.
  refine (no_edit_no_commit "home" sample_props 7
            [Tick 1000; TogglePreview; Rerender renamed_props; Unmount] _).
  quiet_events.
Defined.

(** An edit and its commit, with the first lint run resolving meanwhile: the
    linter has still only seen the initial contents. *)
Lemma lint_only_on_new_props_witness :
  lint_runs (run "home" [Edit "x"; Tick 500; LintSettled (Return [])]
               (mount sample_props 7)) = ["openapi: 3.0.0"] /\
  props (this (run "home" [Edit "x"; Tick 500; LintSettled (Return [])]
                 (mount sample_props 7))) = sample_props.
Proof.
  refine (lint_only_on_new_props "home" (mount sample_props 7)
            [Edit "x"; Tick 500; LintSettled (Return [])] _).
  repeat constructor.
Defined.

Lemma edit_reaches_linter_witness :
  exists r : ApiSpec,
    commits (run "home" [Tick 500]
               (step "home" (Edit "openapi: 3.0.1") (mount sample_props 7))) =
    [(1%nat, r)] /\
    lint_runs (step "home" (Rerender (with_activeApiSpec sample_props r))
                 (run "home" [Tick 500]
                    (step "home" (Edit "openapi: 3.0.1") (mount sample_props 7)))) =
    ["openapi: 3.0.0"; "openapi: 3.0.1"].
Proof.
  refine (edit_reaches_linter "home" (mount sample_props 7) "openapi: 3.0.1"
            [Tick 500] _ _ _ _).
  - apply reachable_mount.
  - quiet_events.
  - repeat constructor.
  - in_time.
Defined.

(** Two runs in flight; one resolves with a violation, then the other
    rejects: the violation stays on screen. *)
Lemma last_resolved_lint_wins_witness :
  lintMessages
    (state (this (settle_all
                    [ Return [ {| Violation.severity := 1; Violation.code := "W7";
                                  Violation.message := "no description";
                                  Violation.range :=
                                    {| start := {| line := 0; character := 0 |};
                                       end_ := {| line := 0; character := 7 |} |} |} ];
                      Throw (LibraryError "spectral" "ruleset") ]
                    (exec _reLint (mount sample_props 7))))) =
  [ {| Notice.type := "warning"; Notice.message := "W7 no description";
       Notice.line := 0;
       Notice._range := {| start := {| line := 0; character := 0 |};
                           end_ := {| line := 0; character := 7 |} |} |} ].
Proof.
  refine (last_resolved_lint_wins
            [ Return [ {| Violation.severity := 1; Violation.code := "W7";
                          Violation.message := "no description";
                          Violation.range :=
                            {| start := {| line := 0; character := 0 |};
                               end_ := {| line := 0; character := 7 |} |} |} ];
              Throw (LibraryError "spectral" "ruleset") ]
            (exec _reLint (mount sample_props 7)) eq_refl _).
  in_time.
Defined.

Lemma toggle_preview_flips_witness :
  let w := mount sample_props 7 in
  let w' := step "home" TogglePreview w in
  previewActive (state (this w')) = negb (previewActive (state (this w))) /\
  lintMessages (state (this w')) = lintMessages (state (this w)) /\
  props (this w') = props (this w) /\
  timers w' = timers w /\ trace w' = trace w /\
  step "home" TogglePreview w' = w.
Proof.
  exact (toggle_preview_flips "home" (mount sample_props 7) eq_refl).
Defined.

(** The sample's first lint run finds nothing: no table. *)
Lemma diagnostics_table_after_lint_witness :
  exists view : View,
    render yaml_sample
           (this (settle_lint (Return []) (exec _reLint (mount sample_props 7)))) =
    Return view /\
    notices view = None.
Proof.
  exact (diagnostics_table_after_lint yaml_sample (mount sample_props 7) [] eq_refl).
Defined.

(** Teardown while the first lint run is in flight: its result is dropped. *)
Example lint_result_after_teardown_example :
  lintMessages
    (state (this (run "home"
                    [ Unmount;
                      LintSettled
                        (Return [ {| Violation.severity := 0; Violation.code := "E1";
                                     Violation.message := "bad";
                                     Violation.range :=
                                       {| start := {| line := 2; character := 0 |};
                                          end_ := {| line := 2; character := 10 |} |} |} ]) ]
                    (mount sample_props 7)))) = [].
Proof. reflexivity. Qed.
